(** * Standard normal quantiles demo: a model of [normal_quantiles.py]

    The program is a Streamlit page with two panels.  The left panel reads a
    quantile order [q] from a slider and computes [x_q = norm.ppf(q)]; the
    right panel reads a value [x_input] and computes [norm.cdf(x_input)].
    Both call [plot_shaded_normal], which samples the standard normal density
    on [np.linspace(-4, 4, 1000)] and shades the samples selected by the
    boolean mask [x <= x_q].

    Numbers are binary64 values, modelled by Rocq's primitive floats, so that
    the grid, the comparisons and the masks are the ones the program
    computes.  The numerical kernels of scipy ([ndtri] behind [norm.ppf], the
    density formula behind [norm.pdf]) are compiled library code: each is a
    parameter of the model, a function from floats to floats, and every
    property below holds whatever the kernels return. *)

From Stdlib Require Import List Bool Sorted Floats.
From Stdlib Require Import ZArith QArith Qpower Qreals Reals Lra Lia.
Import ListNotations.

(** ** binary64 values *)

Module Float64.

(** The float of a non-negative machine integer, as [np.arange] makes it. *)
Definition of_nat (i : nat) : float :=
  PrimFloat.of_uint63 (Uint63.of_Z (Z.of_nat i)).

(** The rational number a finite float denotes (0 for infinities and NaN). *)
Definition to_Q (f : float) : Q :=
  match Prim2SF f with
  | S754_finite s m e =>
      (inject_Z (if s then Z.neg m else Z.pos m) * Qpower (2 # 1) e)%Q
  | _ => 0%Q
  end.

Definition to_R (f : float) : R := Q2R (to_Q f).

Definition lt (a b : float) : Prop := (a <? b)%float = true.
Definition le (a b : float) : Prop := (a <=? b)%float = true.

(** Adjacent elements compare with [<]: the executable test for a strictly
    increasing array. *)
Fixpoint increasing (l : list float) : bool :=
  match l with
  | a :: (b :: _) as t => (a <? b)%float && increasing t
  | _ => true
  end.

End Float64.

(** ** numpy *)

Module Numpy.
Import Float64.
Local Open Scope float_scope.

(** [np.arange(0, num, dtype=float)]. *)
Definition arange (num : nat) : list float := map of_nat (seq 0 num).

(** [np.linspace(start, stop, num)] with [endpoint=True]: the step is
    [delta / div]; the samples are [arange * step + start], each operation
    rounded; the last sample is overwritten with [stop]. *)
Definition linspace (start stop : float) (num : nat) : list float :=
  let div := (num - 1)%nat in
  let delta := stop - start in
  let y := arange num in
  let y :=
    if (0 <? div)%nat then
      let step := delta / of_nat div in
      if step =? 0 then map (fun a => a / of_nat div * delta) y
      else map (fun a => a * step) y
    else map (fun a => a * delta) y in
  let y := map (fun a => a + start) y in
  if (1 <? num)%nat then removelast y ++ [stop] else y.

(** [a <= b] for an array [a] and a scalar [b]: the boolean mask. *)
Definition less_equal (a : list float) (b : float) : list bool :=
  map (fun ai => ai <=? b) a.

(** [a[mask]]: the elements of [a] whose mask entry is [True], in order.
    numpy requires the mask to have the length of [a]; the program only
    indexes arrays of the length of [x] with masks computed from [x]. *)
Fixpoint getitem_mask {A : Type} (a : list A) (mask : list bool) : list A :=
  match a, mask with
  | ai :: a', true :: mask' => ai :: getitem_mask a' mask'
  | _ :: a', false :: mask' => getitem_mask a' mask'
  | _, _ => []
  end.

End Numpy.

(** ** scipy.stats.norm *)

Module Scipy.
Local Open Scope float_scope.

(** [norm.ppf(q)] with the default [loc=0], [scale=1].  The generic [ppf] of
    a continuous distribution calls the kernel [_ppf] (for the normal law
    [ndtri]) where [0 < q < 1], fills [q == 0] and [q == 1] with the ends of
    the support, [-inf] and [inf], and leaves every other entry at the bad
    value NaN.  It returns a float in each case. *)
Definition norm_ppf (ndtri : float -> float) (q : float) : float :=
  if (0 <? q) && (q <? 1) then ndtri q * 1 + 0
  else if q =? 0 then neg_infinity * 1 + 0
  else if q =? 1 then infinity * 1 + 0
  else nan.

(** [norm.pdf(x)] with the default [loc=0], [scale=1].  The generic [pdf]
    starts from an array of zeros, puts the bad value NaN where the
    standardised argument is NaN, and puts [_pdf(x) / scale] where the
    argument lies in the support [[-inf, inf]].  The kernel [_pdf], for the
    normal law [exp(-x**2/2) / sqrt(2*pi)] evaluated in binary64, is the
    parameter [pdf]. *)
Definition norm_pdf (pdf : float -> float) (x : float) : float :=
  let z := (x - 0) / 1 in
  if (neg_infinity <=? z) && (z <=? infinity) then pdf z / 1
  else if is_nan z then nan
  else 0.

End Scipy.

(** ** The program *)

Module App.
Import Float64 Numpy Scipy.
Local Open Scope float_scope.

(** Lines 33-34: [x = np.linspace(-4, 4, 1000)], [y = norm.pdf(x)]. *)
Definition x : list float := linspace (-4) 4 1000.
Definition y (pdf : float -> float) : list float := map (norm_pdf pdf) x.

(** Lines 42-43: [x_fill = x[x <= x_q]], [y_fill = y[x <= x_q]]. *)
Definition x_fill (x_q : float) : list float :=
  getitem_mask x (less_equal x x_q).
Definition y_fill (pdf : float -> float) (x_q : float) : list float :=
  getitem_mask (y pdf) (less_equal x x_q).

(** What [plot_shaded_normal] draws: the density curve (line 39), the shaded
    samples under it (line 44) and the vertical line (line 47). *)
Record figure : Type := Figure {
  curve : list (float * float);
  shaded : list (float * float);
  axvline : float
}.

Definition plot_shaded_normal (pdf : float -> float) (x_q : float) : figure :=
  {| curve := combine x (y pdf);
     shaded := combine (x_fill x_q) (y_fill pdf x_q);
     axvline := x_q |}.

(** The result of evaluating a Python expression: a value, or an exception. *)
Inductive error : Type := DomainError.
Inductive outcome (A : Type) : Type :=
| Returned (v : A)
| Raised (e : error).
Arguments Returned {A} v.
Arguments Raised {A} e.

(** Line 80, [x_q = norm.ppf(q)]: the step from a quantile order to its
    value.  No [try], [raise] or check surrounds the call. *)
Definition order_to_value (ndtri : float -> float) (q : float) : outcome float :=
  Returned (norm_ppf ndtri q).

(** Lines 72-78: the bounds of the slider that feeds [q], the doubles
    nearest to 0.001 and 0.999. *)
#[local] Set Warnings "-inexact-float".
Definition slider_min : float := 0.001.
Definition slider_max : float := 0.999.
#[local] Set Warnings "inexact-float".

End App.

(** ** The two panels *)

Module Panels.
Import Float64 Numpy Scipy App.
Local Open Scope float_scope.

(** Lines 80 and 92-97: the left panel draws [plot_shaded_normal] at
    [x_q = norm.ppf(q)]. *)
Definition fig_left (ndtri pdf : float -> float) (q : float) : figure :=
  plot_shaded_normal pdf (norm_ppf ndtri q).

(** Lines 110-117: the bounds of the number input that feeds [x_input]. *)
Definition x_input_min : float := -4.
Definition x_input_max : float := 4.

(** Lines 131-136: the right panel draws [plot_shaded_normal] at
    [x_input]. *)
Definition fig_right (pdf : float -> float) (x_input : float) : figure :=
  plot_shaded_normal pdf x_input.

End Panels.

(** ** Kinds of floats *)

Module FloatKind.

(** A zero or a finite float: neither an infinity nor NaN. *)
Definition is_real (s : spec_float) : bool :=
  match s with
  | S754_zero _ | S754_finite _ _ _ => true
  | _ => false
  end.

End FloatKind.

(** ** The exact grid *)

Module GridCheck.
Import Float64.

(** The i-th point of the exact grid of 1000 points on [-4, 4], and the
    test that a float lies within [2^-50] of it. *)
Definition ideal (i : nat) : Q := (-4 + inject_Z (Z.of_nat i) * (8 # 999))%Q.
Definition tolerance : Q := 1 # 1125899906842624.
Definition near_ideal (xi : float) (i : nat) : bool :=
  Qle_bool (ideal i - tolerance) (to_Q xi)
  && Qle_bool (to_Q xi) (ideal i + tolerance).

Fixpoint all2 {A B : Type} (f : A -> B -> bool)
  (l1 : list A) (l2 : list B) : bool :=
  match l1, l2 with
  | [], [] => true
  | a :: l1', b :: l2' => f a b && all2 f l1' l2'
  | _, _ => false
  end.

End GridCheck.

(** * Properties *)

(** ** The order of binary64 comparisons *)

Module FloatOrder.
Import Float64.

(** Case analysis on the specification of the comparisons: the sign, then
    the exponent, then the mantissa. *)
Ltac sf_order :=
  unfold SFltb, SFleb, SFeqb;
  repeat match goal with f : spec_float |- _ => destruct f end;
  simpl; try discriminate; try reflexivity;
  repeat match goal with s : bool |- _ => destruct s end;
  simpl; try discriminate; try reflexivity;
  repeat match goal with
    | |- context [Pos.compare_cont Eq ?m ?n] => change (Pos.compare_cont Eq m n) with (Pos.compare m n)
    end;
  repeat match goal with
    | |- context [Z.compare ?a ?b] => destruct (Z.compare_spec a b)
    end;
  try discriminate; try reflexivity; try lia;
  repeat match goal with
    | |- context [Pos.compare ?a ?b] => destruct (Pos.compare_spec a b)
    end;
  simpl; try discriminate; try reflexivity; try lia.

Ltac to_spec :=
  unfold lt, le; rewrite ?ltb_spec, ?leb_spec, ?eqb_spec;
  repeat match goal with
    | |- context [Prim2SF ?a] => generalize (Prim2SF a); intro
    end.

Lemma lt_le_trans (a b c : float) : lt a b -> le b c -> lt a c.
Proof. to_spec. sf_order. Qed.

Lemma le_lt_trans (a b c : float) : le a b -> lt b c -> lt a c.
Proof. to_spec. sf_order. Qed.

Lemma le_trans (a b c : float) : le a b -> le b c -> le a c.
Proof. to_spec. sf_order. Qed.

Lemma lt_trans (a b c : float) : lt a b -> lt b c -> lt a c.
Proof. to_spec. sf_order. Qed.

Lemma lt_le (a b : float) : lt a b -> le a b.
Proof. to_spec. sf_order. Qed.


Lemma le_not_lt (a b : float) : le a b -> (b <? a)%float = false.
Proof. to_spec. sf_order. Qed.

End FloatOrder.

(** ** Boolean masks *)

Module MaskFacts.
Import Float64 Numpy.


Lemma getitem_mask_none {A : Type} (xs : list float) (c : float) :
  Forall (fun xi => (xi <=? c)%float = false) xs ->
  forall ys : list A, getitem_mask ys (less_equal xs c) = [].
Proof.
  induction 1 as [|h t Hh _ IH]; intros [|b ys]; simpl; try reflexivity.
  rewrite Hh. apply IH.
Qed.

Lemma getitem_mask_all {A : Type} (xs : list float) (c : float) :
  Forall (fun xi => le xi c) xs ->
  forall ys : list A, length ys = length xs ->
  getitem_mask ys (less_equal xs c) = ys.
Proof.
  induction 1 as [|h t Hh _ IH]; intros [|b ys] Hlen; simpl in *;
    try discriminate; try reflexivity.
  unfold le in Hh. rewrite Hh, IH by lia. reflexivity.
Qed.

Lemma getitem_mask_length {A : Type} (xs : list float) (c : float) :
  forall ys : list A, length ys = length xs ->
  length (getitem_mask ys (less_equal xs c))
  = length (getitem_mask xs (less_equal xs c)).
Proof.
  induction xs as [|h t IH]; intros [|b ys] Hlen; simpl in *; try discriminate;
    try reflexivity.
  destruct (h <=? c)%float; simpl; rewrite IH by lia; reflexivity.
Qed.

(** On a strictly increasing array the mask of [xs <= c] is a run of [True]
    followed by a run of [False], so indexing with it takes a prefix. *)
Lemma getitem_mask_prefix {A : Type} (xs : list float) (c : float) :
  StronglySorted lt xs ->
  forall ys : list A, length ys = length xs ->
  getitem_mask ys (less_equal xs c)
  = firstn (length (getitem_mask xs (less_equal xs c))) ys.
Proof.
  induction 1 as [|h t Hs IH Hh]; intros [|b ys] Hlen; simpl in *;
    try discriminate; try reflexivity.
  destruct (h <=? c)%float eqn:Hc; simpl.
  - rewrite <- IH by lia. reflexivity.
  - assert (Hnone : Forall (fun xi => (xi <=? c)%float = false) t).
    { rewrite Forall_forall in *. intros xi Hin.
      destruct (xi <=? c)%float eqn:Hxi; [|reflexivity].
      pose proof (FloatOrder.lt_le _ _ (FloatOrder.lt_le_trans _ _ _ (Hh _ Hin) Hxi)) as Hle.
      unfold le in Hle. congruence. }
    rewrite !(getitem_mask_none _ _ Hnone). reflexivity.
Qed.

(** The executable test decides strict monotonicity. *)
Lemma increasing_sorted (l : list float) :
  increasing l = true -> StronglySorted lt l.
Proof.
  intros H. apply Sorted_StronglySorted.
  - intros a b c. apply FloatOrder.lt_trans.
  - induction l as [|a t IH]; [constructor|].
    destruct t as [|b t']; [repeat constructor|].
    change (increasing (a :: b :: t'))
      with ((a <? b)%float && increasing (b :: t')) in H.
    apply andb_prop in H. destruct H as [Hab Ht].
    constructor; [apply IH; exact Ht | constructor; exact Hab].
Qed.

End MaskFacts.

(** ** The sampling grid and the shaded region *)

Module AppSpec.
Import Float64 Numpy Scipy App.
Local Open Scope float_scope.

Lemma x_length : length x = 1000%nat.
Proof. vm_compute. reflexivity. Qed.

Lemma y_length (pdf : float -> float) : length (y pdf) = length x.
Proof. unfold y. apply length_map. Qed.

Lemma x_sorted : StronglySorted lt x.
Proof. apply MaskFacts.increasing_sorted. vm_compute. reflexivity. Qed.

(** Every sample lies between the ends of the domain, [-4] and [4]. *)
Lemma x_bounds : Forall (fun xi => le (-4) xi /\ le xi 4) x.
Proof.
  apply Forall_forall. intros xi Hin.
  assert (H : forallb (fun xi => (-4 <=? xi) && (xi <=? 4)) x = true)
    by (vm_compute; reflexivity).
  rewrite forallb_forall in H. apply andb_prop. apply H, Hin.
Qed.



Lemma shaded_above_domain (pdf : float -> float) (x_q : float) :
  le 4 x_q -> x_fill x_q = x /\ y_fill pdf x_q = y pdf.
Proof.
  intros Hle.
  assert (Hall : Forall (fun xi => le xi x_q) x).
  { eapply Forall_impl; [|apply x_bounds]. intros xi [_ Hhi].
    eapply FloatOrder.le_trans; eassumption. }
  split; apply MaskFacts.getitem_mask_all; auto using y_length.
Qed.



(** C9. For every cutoff the shaded region is a prefix of the density curve,
    aligned with it index by index: the i-th pair of [(x_fill, y_fill)] is
    the i-th pair of [(x, y)]. *)
Theorem shaded_is_prefix (pdf : float -> float) (x_q : float) :
  length (y_fill pdf x_q) = length (x_fill x_q)
  /\ x_fill x_q = firstn (length (x_fill x_q)) x
  /\ y_fill pdf x_q = firstn (length (x_fill x_q)) (y pdf)
  /\ shaded (plot_shaded_normal pdf x_q)
     = firstn (length (x_fill x_q)) (curve (plot_shaded_normal pdf x_q))
  /\ forall i, (i < length (x_fill x_q))%nat ->
       nth_error (x_fill x_q) i = nth_error x i
       /\ nth_error (y_fill pdf x_q) i = nth_error (y pdf) i.
Proof.
  assert (Hx : x_fill x_q = firstn (length (x_fill x_q)) x)
    by (apply MaskFacts.getitem_mask_prefix; [apply x_sorted | reflexivity]).
  assert (Hy : y_fill pdf x_q = firstn (length (x_fill x_q)) (y pdf))
    by (apply MaskFacts.getitem_mask_prefix; [apply x_sorted | apply y_length]).
  split; [apply MaskFacts.getitem_mask_length, y_length|].
  split; [exact Hx|]. split; [exact Hy|]. split.
  - cbn [shaded curve plot_shaded_normal].
    rewrite Hx at 1. rewrite Hy. symmetry. apply combine_firstn.
  - intros i Hi. rewrite Hx at 1. rewrite Hy.
    rewrite !nth_error_firstn.
    destruct (Nat.ltb_spec i (length (x_fill x_q))); [split; reflexivity | lia].
Qed.

Lemma shaded_is_prefix_witness :
  (0 < length (x_fill 0))%nat
  /\ nth_error (x_fill 0) 0 = nth_error x 0
  /\ nth_error (y_fill (fun v => v) 0) 0 = nth_error (y (fun v => v)) 0.
Proof.
  assert (H : (0 < length (x_fill 0))%nat)
    by (vm_compute; repeat constructor).
  split; [exact H|].
  exact (proj2 (proj2 (proj2 (proj2 (shaded_is_prefix (fun v => v) 0))))
           0%nat H).
Defined.

(** ** The step from a quantile order to its value *)

Lemma norm_ppf_outside (ndtri : float -> float) (q : float) :
  le q 0 \/ le 1 q ->
  norm_ppf ndtri q
  = if q =? 0 then neg_infinity else if q =? 1 then infinity else nan.
Proof.
  intros H. unfold norm_ppf.
  assert (Hc : (0 <? q) && (q <? 1) = false).
  { destruct H as [H|H]; apply FloatOrder.le_not_lt in H; rewrite H;
      [reflexivity | apply andb_false_r]. }
  rewrite Hc. destruct (q =? 0); [reflexivity|].
  destruct (q =? 1); reflexivity.
Qed.

(** At the two ends of the unit interval [order_to_value] returns an
    infinity; it does not raise. *)
Lemma order_to_value_limits_return :
  (le 0 0 /\ forall ndtri,
     order_to_value ndtri 0 = Returned neg_infinity
     /\ order_to_value ndtri 0 <> Raised DomainError)
  /\ (le 1 1 /\ forall ndtri,
     order_to_value ndtri 1 = Returned infinity
     /\ order_to_value ndtri 1 <> Raised DomainError).
Proof.
  split; (split; [reflexivity|]); intros ndtri; split;
    solve [reflexivity | discriminate].
Qed.

(** C2, as the program has it.  For a probability [q <= 0] or [q >= 1],
    [order_to_value] raises nothing: it returns a float that is not finite,
    [-inf] at [q == 0], [inf] at [q == 1] and NaN everywhere else. *)
Theorem order_to_value_outside_unit_interval
  (ndtri : float -> float) (q : float) :
  le q 0 \/ le 1 q ->
  exists v : float,
    order_to_value ndtri q = Returned v
    /\ is_finite v = false
    /\ v = (if q =? 0 then neg_infinity else if q =? 1 then infinity else nan).
Proof.
  intros H. eexists. split; [reflexivity|].
  rewrite (norm_ppf_outside ndtri q H).
  split; [|reflexivity].
  destruct (q =? 0); [reflexivity|]. destruct (q =? 1); reflexivity.
Qed.

Lemma order_to_value_outside_unit_interval_witness :
  (le (-1) 0 \/ le 1 (-1))
  /\ exists v : float,
       order_to_value (fun p => p) (-1) = Returned v
       /\ is_finite v = false
       /\ v = (if -1 =? 0 then neg_infinity
               else if -1 =? 1 then infinity else nan).
Proof.
  assert (H : le (-1) 0 \/ le 1 (-1)) by (left; reflexivity).
  split; [exact H|].
  exact (order_to_value_outside_unit_interval (fun p => p) (-1) H).
Defined.

(** Every order the slider can deliver goes to the kernel. *)
Lemma slider_reaches_kernel (ndtri : float -> float) (q : float) :
  le slider_min q -> le q slider_max ->
  order_to_value ndtri q = Returned (ndtri q * 1 + 0).
Proof.
  intros Hlo Hhi. unfold order_to_value, norm_ppf.
  assert (H0 : lt 0 q)
    by (eapply FloatOrder.lt_le_trans; [|exact Hlo]; reflexivity).
  assert (H1 : lt q 1)
    by (eapply FloatOrder.le_lt_trans; [exact Hhi|]; reflexivity).
  unfold lt in H0, H1. rewrite H0, H1. reflexivity.
Qed.

End AppSpec.

(** ** The grid of the density curve *)

Module GridFacts.
Import Float64 Numpy Scipy App GridCheck.
Local Open Scope R_scope.

Lemma all2_Forall2 {A B : Type} (f : A -> B -> bool) (l1 : list A) :
  forall l2 : list B,
  all2 f l1 l2 = true -> Forall2 (fun a b => f a b = true) l1 l2.
Proof.
  induction l1 as [|a l1 IH]; intros [|b l2] H; simpl in H;
    try discriminate; constructor.
  - apply andb_prop in H. apply H.
  - apply IH. apply andb_prop in H. apply H.
Qed.

Lemma near_ideal_sound (xi : float) (i : nat) :
  near_ideal xi i = true ->
  Rabs (to_R xi - (-4 + INR i * (8 / 999))) <= / 2 ^ 50.
Proof.
  unfold near_ideal. intros H. apply andb_prop in H. destruct H as [Hl Hh].
  apply Qle_bool_iff, Qle_Rle in Hl. apply Qle_bool_iff, Qle_Rle in Hh.
  unfold ideal in Hl, Hh.
  rewrite Q2R_minus, Q2R_plus, Q2R_mult in Hl.
  rewrite Q2R_plus, Q2R_plus, Q2R_mult in Hh.
  replace (Q2R (inject_Z (Z.of_nat i))) with (INR i) in Hl, Hh
    by (rewrite INR_IZR_INZ; unfold Q2R, inject_Z; simpl; lra).
  fold (to_R xi) in Hl, Hh.
  replace (Q2R (-4)) with (-4) in Hl, Hh by (unfold Q2R; simpl; lra).
  replace (Q2R (8 # 999)) with (8 / 999) in Hl, Hh by (unfold Q2R; simpl; lra).
  replace (Q2R tolerance) with (/ 2 ^ 50) in Hl, Hh
    by (unfold Q2R, tolerance; simpl; lra).
  apply Rabs_le. lra.
Qed.

(** Each sample is within [2^-50] of its place on the exact grid
    [-4 + i * 8/999]. *)
Lemma x_evenly_spaced :
  Forall2 (fun xi i => Rabs (to_R xi - (-4 + INR i * (8 / 999))) <= / 2 ^ 50)
    x (seq 0 1000).
Proof.
  eapply Forall2_impl; [|apply all2_Forall2 with (f := near_ideal)].
  - intros xi i. apply near_ideal_sound.
  - vm_compute. reflexivity.
Qed.

Lemma map_fst_combine {A B : Type} (l1 : list A) :
  forall l2 : list B, length l2 = length l1 -> map fst (combine l1 l2) = l1.
Proof.
  induction l1 as [|a l1 IH]; intros [|b l2] H; simpl in *;
    try discriminate; try reflexivity.
  rewrite IH by lia. reflexivity.
Qed.

(** X13. Whatever the density kernel returns, the curve of
    [plot_shaded_normal] has exactly 1000 sample pairs and their x-values are
    the grid [x].  The grid starts at [-4], ends at [4], is strictly
    increasing and is evenly spaced up to binary64 rounding: its i-th value
    is within [2^-50] of [-4 + i * 8/999]. *)
Theorem curve_grid_spec (pdf : float -> float) (x_q : float) :
  length (curve (plot_shaded_normal pdf x_q)) = 1000%nat
  /\ map fst (curve (plot_shaded_normal pdf x_q)) = x
  /\ hd_error x = Some (-4)%float /\ last x 0%float = 4%float
  /\ StronglySorted lt x
  /\ Forall2 (fun xi i => Rabs (to_R xi - (-4 + INR i * (8 / 999))) <= / 2 ^ 50)
       x (seq 0 1000).
Proof.
  pose proof AppSpec.x_length as Hx.
  pose proof (AppSpec.y_length pdf) as Hy.
  assert (Hc : curve (plot_shaded_normal pdf x_q) = combine x (y pdf))
    by reflexivity.
  split; [rewrite Hc, length_combine, Hy, Hx; reflexivity|].
  split; [rewrite Hc; apply map_fst_combine, Hy|].
  split; [vm_compute; reflexivity|].
  split; [vm_compute; reflexivity|].
  split; [apply AppSpec.x_sorted | apply x_evenly_spaced].
Qed.

End GridFacts.

(** * Further properties of the figures *)

(** ** The shaded region as a function of the cutoff *)

Module ShadeFacts.
Import Float64 Numpy Scipy App FloatOrder.
Local Open Scope float_scope.

Lemma le_refl_l (a b : float) : le a b -> le a a.
Proof. to_spec. sf_order. Qed.

Lemma le_refl_r (a b : float) : le a b -> le b b.
Proof. to_spec. sf_order. Qed.

Lemma lt_refl_r (a b : float) : lt a b -> le b b.
Proof. to_spec. sf_order. Qed.

(** Two floats that are not NaN always compare. *)
Lemma not_le_lt (a b : float) :
  (a <=? b) = false -> le a a -> le b b -> lt b a.
Proof. to_spec. sf_order. Qed.

Lemma getitem_mask_filter (xs : list float) (c : float) :
  getitem_mask xs (less_equal xs c) = filter (fun xi => xi <=? c) xs.
Proof.
  induction xs as [|h t IH]; simpl; [reflexivity|].
  destruct (h <=? c); rewrite IH; reflexivity.
Qed.

Lemma x_fill_filter (x_q : float) :
  x_fill x_q = filter (fun xi => xi <=? x_q) x.
Proof. apply getitem_mask_filter. Qed.

Lemma x_fill_prefix (x_q : float) :
  x_fill x_q = firstn (length (x_fill x_q)) x.
Proof.
  apply MaskFacts.getitem_mask_prefix; [apply AppSpec.x_sorted | reflexivity].
Qed.

Lemma y_fill_prefix (pdf : float -> float) (x_q : float) :
  y_fill pdf x_q = firstn (length (x_fill x_q)) (y pdf).
Proof.
  apply MaskFacts.getitem_mask_prefix;
    [apply AppSpec.x_sorted | apply AppSpec.y_length].
Qed.

(** On a strictly increasing array no element after the selected prefix
    passes the test. *)
Lemma filter_sorted_rest (xs : list float) (c : float) :
  StronglySorted lt xs ->
  Forall (fun xi => (xi <=? c) = false)
    (skipn (length (filter (fun xi => xi <=? c) xs)) xs).
Proof.
  induction 1 as [|h t Hs IH Hh]; [constructor|].
  cbn [filter]. destruct (h <=? c) eqn:Hc.
  - exact IH.
  - assert (Hnone : Forall (fun xi => (xi <=? c) = false) t).
    { rewrite Forall_forall in *. intros xi Hin.
      destruct (xi <=? c) eqn:Hxi; [|reflexivity].
      pose proof (lt_le _ _ (lt_le_trans _ _ _ (Hh _ Hin) Hxi)) as Hle.
      unfold le in Hle. congruence. }
    replace (filter (fun xi => xi <=? c) t) with (@nil float).
    + constructor; assumption.
    + symmetry. clear - Hnone. induction Hnone as [|a l Ha _ IHl];
        [reflexivity|]. cbn [filter]. rewrite Ha. exact IHl.
Qed.

Lemma x_head : x = (-4) :: tl x.
Proof. vm_compute. reflexivity. Qed.

Lemma x_last_in : In 4 x.
Proof.
  replace 4 with (nth 999 x 0) by (vm_compute; reflexivity).
  apply nth_In. rewrite AppSpec.x_length. lia.
Qed.

Lemma x_fill_length_le (x_q : float) :
  (length (x_fill x_q) <= length x)%nat.
Proof. rewrite x_fill_filter. apply filter_length_le. Qed.

Lemma x_fill_empty_elim (x_q : float) :
  x_fill x_q = [] -> (-4 <=? x_q) = false.
Proof.
  intros H. rewrite x_fill_filter, x_head in H. cbn [filter] in H.
  destruct (-4 <=? x_q); [discriminate | reflexivity].
Qed.

Lemma x_fill_empty_intro (x_q : float) :
  (-4 <=? x_q) = false -> x_fill x_q = [].
Proof.
  intros H. apply MaskFacts.getitem_mask_none.
  eapply Forall_impl; [|apply AppSpec.x_bounds]. intros xi [Hlo _].
  destruct (xi <=? x_q) eqn:Hxi; [|reflexivity].
  pose proof (le_trans _ _ _ Hlo Hxi) as Hle. unfold le in Hle. congruence.
Qed.

(** A region as long as the grid contains the last sample, [4]. *)
Lemma x_fill_full_elim (x_q : float) :
  length (x_fill x_q) = length x -> (4 <=? x_q) = true.
Proof.
  intros H. pose proof (x_fill_prefix x_q) as Hp.
  rewrite H, firstn_all in Hp.
  pose proof x_last_in as Hin. rewrite <- Hp in Hin.
  rewrite x_fill_filter in Hin.
  apply filter_In in Hin. exact (proj2 Hin).
Qed.

Lemma y_fill_length (pdf : float -> float) (x_q : float) :
  length (y_fill pdf x_q) = length (x_fill x_q).
Proof. apply MaskFacts.getitem_mask_length, AppSpec.y_length. Qed.

Lemma shaded_eq (pdf : float -> float) (x_q : float) :
  shaded (plot_shaded_normal pdf x_q)
  = combine (x_fill x_q) (y_fill pdf x_q).
Proof. reflexivity. Qed.

Lemma curve_eq (pdf : float -> float) (x_q : float) :
  curve (plot_shaded_normal pdf x_q) = combine x (y pdf).
Proof. reflexivity. Qed.

Lemma shaded_nil_iff (pdf : float -> float) (x_q : float) :
  shaded (plot_shaded_normal pdf x_q) = [] <-> x_fill x_q = [].
Proof.
  rewrite shaded_eq. split; intros H.
  - apply length_zero_iff_nil. apply (f_equal (@length _)) in H.
    rewrite length_combine, y_fill_length in H. cbn [length] in H. lia.
  - rewrite H. reflexivity.
Qed.

Lemma shaded_empty_elim (pdf : float -> float) (x_q : float) :
  shaded (plot_shaded_normal pdf x_q) = [] -> (-4 <=? x_q) = false.
Proof. rewrite shaded_nil_iff. apply x_fill_empty_elim. Qed.

Lemma shaded_empty_intro (pdf : float -> float) (x_q : float) :
  (-4 <=? x_q) = false -> shaded (plot_shaded_normal pdf x_q) = [].
Proof. rewrite shaded_nil_iff. apply x_fill_empty_intro. Qed.

Lemma shaded_full_elim (pdf : float -> float) (x_q : float) :
  shaded (plot_shaded_normal pdf x_q) = curve (plot_shaded_normal pdf x_q) ->
  (4 <=? x_q) = true.
Proof.
  rewrite shaded_eq, curve_eq. intros H.
  apply (f_equal (@length _)) in H.
  rewrite !length_combine, y_fill_length, AppSpec.y_length in H.
  rewrite !Nat.min_id in H. apply x_fill_full_elim, H.
Qed.

Lemma shaded_full_intro (pdf : float -> float) (x_q : float) :
  (4 <=? x_q) = true ->
  shaded (plot_shaded_normal pdf x_q) = curve (plot_shaded_normal pdf x_q).
Proof.
  rewrite shaded_eq, curve_eq. intros H.
  destruct (AppSpec.shaded_above_domain pdf x_q H) as [Hx Hy].
  rewrite Hx, Hy. reflexivity.
Qed.

(** X4. The curve splits at the length of the shaded region: the samples before
    the split are the shaded ones and are all [<= x_q]; no sample after it
    is [<= x_q]. *)
Theorem shaded_partition (pdf : float -> float) (x_q : float) :
  x = x_fill x_q ++ skipn (length (x_fill x_q)) x
  /\ y pdf = y_fill pdf x_q ++ skipn (length (x_fill x_q)) (y pdf)
  /\ Forall (fun xi => le xi x_q) (x_fill x_q)
  /\ Forall (fun xi => (xi <=? x_q) = false) (skipn (length (x_fill x_q)) x).
Proof.
  split; [|split; [|split]].
  - rewrite (x_fill_prefix x_q) at 1. symmetry. apply firstn_skipn.
  - rewrite (y_fill_prefix pdf x_q). symmetry. apply firstn_skipn.
  - rewrite x_fill_filter. apply Forall_forall. intros xi Hin.
    apply filter_In in Hin. exact (proj2 Hin).
  - rewrite x_fill_filter. apply filter_sorted_rest, AppSpec.x_sorted.
Qed.

Lemma filter_length_mono {A : Type} (f g : A -> bool) (l : list A) :
  (forall a, f a = true -> g a = true) ->
  (length (filter f l) <= length (filter g l))%nat.
Proof.
  intros Hfg. induction l as [|a l IH]; simpl; [lia|].
  destruct (f a) eqn:Hf.
  - rewrite (Hfg a Hf). simpl. lia.
  - destruct (g a); simpl; lia.
Qed.

Lemma x_fill_length_mono (c1 c2 : float) :
  le c1 c2 -> (length (x_fill c1) <= length (x_fill c2))%nat.
Proof.
  intros Hc. rewrite !x_fill_filter. apply filter_length_mono.
  intros a Ha. exact (le_trans _ _ _ Ha Hc).
Qed.

(** X5. Raising the cutoff only extends the shaded region: the region of the
    smaller cutoff is a prefix of the region of the larger one. *)
Theorem shaded_monotone (pdf : float -> float) (c1 c2 : float) :
  le c1 c2 ->
  (length (x_fill c1) <= length (x_fill c2))%nat
  /\ shaded (plot_shaded_normal pdf c1)
     = firstn (length (x_fill c1)) (shaded (plot_shaded_normal pdf c2)).
Proof.
  intros Hc. pose proof (x_fill_length_mono c1 c2 Hc) as Hn.
  split; [exact Hn|].
  rewrite !shaded_eq, combine_firstn.
  rewrite (x_fill_prefix c2), (y_fill_prefix pdf c2), !firstn_firstn.
  rewrite Nat.min_l by exact Hn.
  rewrite <- x_fill_prefix, <- y_fill_prefix. reflexivity.
Qed.

Lemma shaded_monotone_witness :
  le (-1) 1
  /\ (length (x_fill (-1)) <= length (x_fill 1))%nat
  /\ shaded (plot_shaded_normal (fun v => v) (-1))
     = firstn (length (x_fill (-1)))
         (shaded (plot_shaded_normal (fun v => v) 1)).
Proof.
  assert (H : le (-1) 1) by reflexivity.
  split; [exact H|]. exact (shaded_monotone (fun v => v) (-1) 1 H).
Defined.

Lemma inside_nonempty (x_q : float) :
  le (-4) x_q -> (0 < length (x_fill x_q))%nat.
Proof.
  intros Hlo. destruct (x_fill x_q) eqn:Hf; [|simpl; lia].
  exfalso. pose proof (x_fill_empty_elim x_q Hf) as He.
  unfold le in Hlo. congruence.
Qed.

Lemma inside_proper (x_q : float) :
  lt x_q 4 -> (length (x_fill x_q) < length x)%nat.
Proof.
  intros Hhi. pose proof (x_fill_length_le x_q) as Hle.
  destruct (Nat.eq_dec (length (x_fill x_q)) (length x)) as [He|]; [|lia].
  exfalso. pose proof (x_fill_full_elim x_q He) as H4.
  pose proof (le_not_lt _ _ H4) as Hc. unfold lt in Hhi. congruence.
Qed.

(** The last shaded sample is at or below the cutoff. *)
Lemma last_shaded_le (x_q : float) :
  (0 < length (x_fill x_q))%nat ->
  le (nth (length (x_fill x_q) - 1) x 0) x_q.
Proof.
  intros Hn0. set (n := length (x_fill x_q)) in *.
  assert (Hin : In (nth (n - 1) x 0) (x_fill x_q)).
  { rewrite (x_fill_prefix x_q). fold n.
    replace (nth (n - 1) x 0) with (nth (n - 1) (firstn n x) 0).
    - apply nth_In. rewrite length_firstn.
      assert ((n <= length x)%nat)
        by (subst n; rewrite x_fill_filter; apply filter_length_le).
      lia.
    - rewrite nth_firstn. destruct (Nat.ltb_spec (n - 1) n); [reflexivity|lia]. }
  rewrite x_fill_filter in Hin. apply filter_In in Hin. exact (proj2 Hin).
Qed.

(** The first sample that is not shaded is above a cutoff that is not
    NaN. *)
Lemma first_unshaded_gt (x_q : float) :
  le x_q x_q -> (length (x_fill x_q) < length x)%nat ->
  lt x_q (nth (length (x_fill x_q)) x 0).
Proof.
  intros Hq Hn1. set (n := length (x_fill x_q)) in *.
  pose proof (filter_sorted_rest x x_q AppSpec.x_sorted) as Hrest.
  rewrite <- x_fill_filter in Hrest. fold n in Hrest.
  rewrite Forall_forall in Hrest.
  assert (Hin : In (nth n x 0) (skipn n x)).
  { replace (nth n x 0) with (nth 0 (skipn n x) 0)
      by (rewrite nth_skipn; f_equal; lia).
    apply nth_In. rewrite length_skipn. lia. }
  apply not_le_lt; [apply Hrest, Hin | | exact Hq].
  pose proof AppSpec.x_bounds as Hb. rewrite Forall_forall in Hb.
  apply (le_refl_r (-4)). apply Hb. apply nth_In. exact Hn1.
Qed.

(** X2. The shaded region is empty exactly when the test [-4 <= x_q] fails:
    for a cutoff below the domain and for a NaN cutoff. *)
Theorem shaded_empty_iff (pdf : float -> float) (x_q : float) :
  shaded (plot_shaded_normal pdf x_q) = [] <-> (-4 <=? x_q) = false.
Proof. split; [apply shaded_empty_elim | apply shaded_empty_intro]. Qed.

(** X3. The shaded region is the whole curve exactly when [4 <= x_q]. *)
Theorem shaded_full_iff (pdf : float -> float) (x_q : float) :
  shaded (plot_shaded_normal pdf x_q) = curve (plot_shaded_normal pdf x_q)
  <-> (4 <=? x_q) = true.
Proof. split; [apply shaded_full_elim | apply shaded_full_intro]. Qed.

(** X6. For a cutoff inside the domain, [-4 <= x_q < 4], the region is not
    empty and not the whole curve, and the cutoff lies between the last
    shaded sample and the first sample that is not shaded. *)
Theorem shaded_edge_brackets_cutoff (x_q : float) :
  le (-4) x_q -> lt x_q 4 ->
  (0 < length (x_fill x_q) < length x)%nat
  /\ le (nth (length (x_fill x_q) - 1) x 0) x_q
  /\ lt x_q (nth (length (x_fill x_q)) x 0).
Proof.
  intros Hlo Hhi.
  pose proof (inside_nonempty x_q Hlo) as Hn0.
  pose proof (inside_proper x_q Hhi) as Hn1.
  split; [lia|]. split.
  - apply last_shaded_le, Hn0.
  - apply first_unshaded_gt; [exact (le_refl_r _ _ Hlo) | exact Hn1].
Qed.

Lemma shaded_edge_brackets_cutoff_witness :
  le (-4) 0 /\ lt 0 4
  /\ (0 < length (x_fill 0) < length x)%nat
  /\ le (nth (length (x_fill 0) - 1) x 0) 0
  /\ lt 0 (nth (length (x_fill 0)) x 0).
Proof.
  assert (H1 : le (-4) 0) by reflexivity.
  assert (H2 : lt 0 4) by reflexivity.
  split; [exact H1|]. split; [exact H2|].
  exact (shaded_edge_brackets_cutoff 0 H1 H2).
Defined.

End ShadeFacts.

(** ** What the two panels draw *)

Module PanelSpec.
Import Float64 Numpy Scipy App Panels FloatOrder ShadeFacts.
Local Open Scope float_scope.

(** X8. Outside the open unit interval the left panel still draws: it shades
    nothing at [q == 0] (cutoff [-inf]) and for every other such [q] (cutoff
    NaN), except at [q == 1] (cutoff [inf]) where it shades the whole
    curve. *)
Theorem fig_left_outside_unit_interval
  (ndtri pdf : float -> float) (q : float) :
  le q 0 \/ le 1 q ->
  shaded (fig_left ndtri pdf q)
  = if q =? 0 then []
    else if q =? 1 then curve (fig_left ndtri pdf q) else [].
Proof.
  intros H. unfold fig_left. rewrite (AppSpec.norm_ppf_outside ndtri q H).
  destruct (q =? 0); [apply shaded_empty_intro; reflexivity|].
  destruct (q =? 1).
  - apply shaded_full_intro. reflexivity.
  - apply shaded_empty_intro. reflexivity.
Qed.

Lemma fig_left_outside_unit_interval_witness :
  (le 1 0 \/ le 1 1)
  /\ shaded (fig_left (fun p => p) (fun v => v) 1)
     = if 1 =? 0 then []
       else if 1 =? 1 then curve (fig_left (fun p => p) (fun v => v) 1)
       else [].
Proof.
  assert (H : le 1 0 \/ le 1 1) by (right; reflexivity).
  split; [exact H|].
  exact (fig_left_outside_unit_interval (fun p => p) (fun v => v) 1 H).
Defined.

Lemma le_antisym_eqb (a b : float) : le a b -> ((b <=? a) = (a =? b)).
Proof.
  unfold le. rewrite !leb_spec, FloatAxioms.eqb_spec.
  generalize (Prim2SF a) (Prim2SF b). intros sa sb. sf_order.
  all: rewrite ?Pos.compare_refl, ?Z.compare_refl; reflexivity.
Qed.

Lemma shaded_prefix (pdf : float -> float) (x_q : float) :
  shaded (plot_shaded_normal pdf x_q)
  = firstn (length (x_fill x_q)) (curve (plot_shaded_normal pdf x_q)).
Proof.
  rewrite shaded_eq, curve_eq, combine_firstn.
  rewrite <- x_fill_prefix, <- y_fill_prefix. reflexivity.
Qed.

Lemma hd_error_firstn {A : Type} (k : nat) (l : list A) :
  hd_error (firstn (S k) l) = hd_error l.
Proof. destruct l; reflexivity. Qed.

(** X9. For every value the number input can deliver, [-4 <= x_input <= 4], the
    right panel shades a region that starts with the first sample of the
    curve, and it shades the whole curve exactly at [x_input == 4]. *)
Theorem fig_right_in_range (pdf : float -> float) (x_input : float) :
  le x_input_min x_input -> le x_input x_input_max ->
  hd_error (shaded (fig_right pdf x_input))
  = hd_error (curve (fig_right pdf x_input))
  /\ shaded (fig_right pdf x_input) <> []
  /\ (shaded (fig_right pdf x_input) = curve (fig_right pdf x_input)
      <-> (x_input =? 4) = true).
Proof.
  unfold x_input_min, x_input_max, fig_right. intros Hlo Hhi.
  assert (Hne : shaded (plot_shaded_normal pdf x_input) <> []).
  { intros He. apply shaded_empty_elim in He. unfold le in Hlo. congruence. }
  split; [|split; [exact Hne|]].
  - rewrite shaded_prefix.
    destruct (length (x_fill x_input)) eqn:Hn; [|apply hd_error_firstn].
    exfalso. apply Hne, shaded_nil_iff, length_zero_iff_nil, Hn.
  - rewrite <- (le_antisym_eqb _ _ Hhi).
    split; [apply shaded_full_elim | apply shaded_full_intro].
Qed.

Lemma fig_right_in_range_witness :
  le x_input_min 4 /\ le 4 x_input_max
  /\ hd_error (shaded (fig_right (fun v => v) 4))
     = hd_error (curve (fig_right (fun v => v) 4))
  /\ shaded (fig_right (fun v => v) 4) <> []
  /\ (shaded (fig_right (fun v => v) 4) = curve (fig_right (fun v => v) 4)
      <-> (4 =? 4) = true).
Proof.
  assert (H1 : le x_input_min 4) by reflexivity.
  assert (H2 : le 4 x_input_max) by reflexivity.
  split; [exact H1|]. split; [exact H2|].
  exact (fig_right_in_range (fun v => v) 4 H1 H2).
Defined.

End PanelSpec.

(** ** The order of floats and the order of their values *)

Module FloatValue.
Import Float64 FloatKind.

(** A mantissa of [d] binary digits lies in [[2^(d-1), 2^d)]. *)
Lemma digits2_bounds (m : positive) :
  (2 ^ (Z.pos (digits2_pos m) - 1) <= Z.pos m < 2 ^ Z.pos (digits2_pos m))%Z.
Proof.
  induction m as [p IH|p IH|]; cbn [digits2_pos].
  - rewrite Pos2Z.inj_succ. change (Z.pos p~1) with (2 * Z.pos p + 1)%Z.
    replace (Z.succ (Z.pos (digits2_pos p)) - 1)%Z
      with (Z.succ (Z.pos (digits2_pos p) - 1))%Z by lia.
    rewrite !Z.pow_succ_r by lia.
    revert IH.
    generalize (2 ^ (Z.pos (digits2_pos p) - 1))%Z (2 ^ Z.pos (digits2_pos p))%Z.
    intros A B IH. lia.
  - rewrite Pos2Z.inj_succ. change (Z.pos p~0) with (2 * Z.pos p)%Z.
    replace (Z.succ (Z.pos (digits2_pos p)) - 1)%Z
      with (Z.succ (Z.pos (digits2_pos p) - 1))%Z by lia.
    rewrite !Z.pow_succ_r by lia.
    revert IH.
    generalize (2 ^ (Z.pos (digits2_pos p) - 1))%Z (2 ^ Z.pos (digits2_pos p))%Z.
    intros A B IH. lia.
  - simpl. lia.
Qed.

(** A valid mantissa has at most 53 bits, and exactly 53 above the least
    exponent. *)
Lemma bounded_mantissa (m : positive) (e : Z) :
  SpecFloat.bounded FloatOps.prec FloatOps.emax m e = true ->
  (-1074 <= e)%Z /\ (Z.pos m < 2 ^ 53)%Z
  /\ ((-1074 < e)%Z -> (2 ^ 52 <= Z.pos m)%Z).
Proof.
  unfold SpecFloat.bounded, canonical_mantissa, fexp. intros H.
  apply andb_prop in H. destruct H as [H _]. apply Z.eqb_eq in H.
  pose proof (digits2_bounds m) as [Hlo Hhi].
  set (d := Z.pos (digits2_pos m)) in *.
  assert (Hd : (0 < d)%Z) by (subst d; lia).
  change (SpecFloat.emin FloatOps.prec FloatOps.emax) with (-1074)%Z in H.
  change FloatOps.prec with 53%Z in H.
  split; [lia|]. split.
  - apply Z.lt_le_trans with (2 ^ d)%Z; [exact Hhi|].
    apply Z.pow_le_mono_r; lia.
  - intros He. assert (d = 53)%Z by lia.
    replace 52%Z with (d - 1)%Z by lia. exact Hlo.
Qed.

Lemma two_pow_pos (e : Z) : (0 < Qpower (2 # 1) e)%Q.
Proof. apply Qpower_0_lt. reflexivity. Qed.

(** Positive valid floats are ordered by exponent, then by mantissa. *)
Lemma finite_lt (m1 m2 : positive) (e1 e2 : Z) :
  SpecFloat.bounded FloatOps.prec FloatOps.emax m1 e1 = true -> SpecFloat.bounded FloatOps.prec FloatOps.emax m2 e2 = true ->
  (e1 < e2)%Z \/ (e1 = e2 /\ (m1 < m2)%positive) ->
  (inject_Z (Z.pos m1) * Qpower (2 # 1) e1
   < inject_Z (Z.pos m2) * Qpower (2 # 1) e2)%Q.
Proof.
  intros H1 H2 H.
  destruct (bounded_mantissa _ _ H1) as (Hmin1 & Hhi1 & _).
  destruct (bounded_mantissa _ _ H2) as (_ & _ & Hlo2).
  assert (Hk : (0 <= e2 - e1)%Z) by lia.
  assert (Hz : (Z.pos m1 < Z.pos m2 * 2 ^ (e2 - e1))%Z).
  { destruct H as [H|[-> H]].
    - assert (2 ^ 1 <= 2 ^ (e2 - e1))%Z by (apply Z.pow_le_mono_r; lia).
      specialize (Hlo2 ltac:(lia)). change (2 ^ 53)%Z with (2 ^ 52 * 2 ^ 1)%Z in Hhi1.
      nia.
    - rewrite Z.sub_diag. simpl. lia. }
  replace e2 with ((e2 - e1) + e1)%Z at 1 by lia.
  rewrite Qpower_plus by discriminate.
  rewrite <- (Zpower_Qpower 2 (e2 - e1) Hk).
  rewrite Qmult_assoc, <- inject_Z_mult.
  apply Qmult_lt_compat_r; [apply two_pow_pos|].
  rewrite <- Zlt_Qlt. exact Hz.
Qed.

Lemma neg_value (m : positive) (e : Z) :
  (inject_Z (Z.neg m) * Qpower (2 # 1) e
   == - (inject_Z (Z.pos m) * Qpower (2 # 1) e))%Q.
Proof.
  change (inject_Z (Z.neg m)) with (- inject_Z (Z.pos m))%Q. ring.
Qed.

Lemma neg_value_lt_0 (m : positive) (e : Z) :
  (inject_Z (Z.neg m) * Qpower (2 # 1) e < 0)%Q.
Proof.
  rewrite neg_value.
  apply (Qopp_lt_compat 0 (inject_Z (Z.pos m) * Qpower (2 # 1) e)).
  apply Qmult_lt_0_compat; [reflexivity | apply two_pow_pos].
Qed.

(** On floats other than infinities and NaN, [<] is the order of the
    rational values. *)
Lemma lt_to_Q (a b : float) :
  is_real (Prim2SF a) = true -> is_real (Prim2SF b) = true ->
  lt a b -> (to_Q a < to_Q b)%Q.
Proof.
  unfold lt, to_Q. rewrite ltb_spec.
  pose proof (Prim2SF_valid a) as Va. pose proof (Prim2SF_valid b) as Vb.
  destruct (Prim2SF a) as [sa|sa| |sa ma ea], (Prim2SF b) as [sb|sb| |sb mb eb];
    try discriminate; intros _ _; unfold SFltb; simpl in *.
  - destruct sb; [discriminate|]. intros _.
    apply Qmult_lt_0_compat; [reflexivity | apply two_pow_pos].
  - destruct sa; [|discriminate]. intros _. apply neg_value_lt_0.
  - change (PosDef.Pos.compare_cont Eq ma mb) with (Pos.compare ma mb).
    destruct sa, sb; try discriminate.
    + intros H. rewrite !neg_value. apply Qopp_lt_compat.
      apply finite_lt; try assumption.
      destruct (Z.compare_spec ea eb); try discriminate; [|lia].
      destruct (Pos.compare_spec ma mb); try discriminate.
      right. split; [lia|assumption].
    + intros _. apply Qlt_trans with 0%Q; [apply neg_value_lt_0|].
      apply Qmult_lt_0_compat; [reflexivity | apply two_pow_pos].
    + intros H. apply finite_lt; try assumption.
      destruct (Z.compare_spec ea eb); try discriminate; [|lia].
      destruct (Pos.compare_spec ma mb); try discriminate.
      right. split; assumption.
Qed.

End FloatValue.

(** ** Real values of the grid *)

Module GridSpec.
Import Float64 Numpy Scipy App FloatKind FloatOrder ShadeFacts FloatValue.

Lemma lt_to_R (a b : float) :
  is_real (Prim2SF a) = true -> is_real (Prim2SF b) = true ->
  lt a b -> (to_R a < to_R b)%R.
Proof. intros Ha Hb H. apply Qlt_Rlt, lt_to_Q; assumption. Qed.

Lemma le_to_R (a b : float) :
  is_real (Prim2SF a) = true -> is_real (Prim2SF b) = true ->
  le a b -> (to_R a <= to_R b)%R.
Proof.
  intros Ha Hb H.
  destruct (a <? b)%float eqn:Hlt; [left; apply lt_to_R; assumption|].
  right. unfold to_R. f_equal. revert Ha Hb H Hlt.
  unfold le, to_Q. rewrite leb_spec, ltb_spec.
  destruct (Prim2SF a) as [sa|sa| |sa ma ea], (Prim2SF b) as [sb|sb| |sb mb eb];
    try discriminate; intros _ _; unfold SFleb, SFltb; simpl;
    try reflexivity.
  - destruct sb; discriminate.
  - destruct sa; discriminate.
  - change (PosDef.Pos.compare_cont Eq ma mb) with (Pos.compare ma mb).
    destruct sa, sb; try discriminate;
      destruct (Z.compare_spec ea eb); try discriminate;
      destruct (Pos.compare_spec ma mb); try discriminate;
      intros _ _; subst; reflexivity.
Qed.

(** A float between [-4] and [4] is neither an infinity nor NaN. *)
Lemma in_domain_real (a : float) :
  le (-4) a -> le a 4 -> is_real (Prim2SF a) = true.
Proof.
  unfold le. rewrite !leb_spec. intros Hlo Hhi.
  destruct (Prim2SF a) as [sa|sa| |sa ma ea]; try reflexivity.
  - destruct sa; vm_compute in Hlo, Hhi; discriminate.
  - vm_compute in Hlo. discriminate.
Qed.

Lemma x_real : Forall (fun xi => is_real (Prim2SF xi) = true) x.
Proof.
  eapply Forall_impl; [|apply AppSpec.x_bounds].
  intros xi [Hlo Hhi]. apply in_domain_real; assumption.
Qed.

Lemma Forall2_nth {A B : Type} (P : A -> B -> Prop) (l1 : list A) :
  forall (l2 : list B), Forall2 P l1 l2 ->
  forall i d1 d2, (i < length l1)%nat -> P (nth i l1 d1) (nth i l2 d2).
Proof.
  induction 1 as [|a b l1 l2 Hab _ IH]; intros i d1 d2 Hi; simpl in Hi;
    [lia|].
  destruct i as [|i]; [exact Hab|]. simpl. apply IH. lia.
Qed.

Lemma last_nth {A : Type} (l : list A) (d : A) :
  last l d = nth (length l - 1) l d.
Proof.
  induction l as [|a [|b l] IH]; try reflexivity.
  change (last (a :: b :: l) d) with (last (b :: l) d). rewrite IH.
  simpl. rewrite Nat.sub_0_r. reflexivity.
Qed.

Lemma Rabs_le_bounds (r a : R) : (Rabs r <= a -> - a <= r <= a)%R.
Proof.
  intros H. pose proof (Rle_abs r). pose proof (Rle_abs (- r)) as H'.
  rewrite Rabs_Ropp in H'. lra.
Qed.

Lemma x_nth_near (i : nat) :
  (i < 1000)%nat ->
  (Rabs (to_R (nth i x 0%float) - (-4 + INR i * (8 / 999))) <= / 2 ^ 50)%R.
Proof.
  intros Hi.
  pose proof (Forall2_nth _ _ _ GridFacts.x_evenly_spaced i 0%float 0%nat) as H.
  rewrite AppSpec.x_length in H. specialize (H Hi).
  rewrite seq_nth in H by exact Hi. exact H.
Qed.

(** X7. For a cutoff inside the domain the shaded region ends less than one
    grid step before the vertical line: the cutoff is at or after the last
    shaded x-value and exceeds it by less than [8/999 + 2^-49]. *)
Theorem shaded_edge_within_step (x_q : float) :
  le (-4) x_q -> lt x_q 4 ->
  (0 <= to_R x_q - to_R (last (x_fill x_q) 0%float) < 8 / 999 + / 2 ^ 49)%R.
Proof.
  intros Hlo Hhi.
  pose proof (inside_nonempty x_q Hlo) as Hn0.
  pose proof (inside_proper x_q Hhi) as Hn1.
  pose proof (last_shaded_le x_q Hn0) as Hl.
  pose proof (first_unshaded_gt x_q (le_refl_r _ _ Hlo) Hn1) as Hr.
  set (n := length (x_fill x_q)) in *.
  assert (Hlast : last (x_fill x_q) 0%float = nth (n - 1) x 0%float).
  { rewrite (x_fill_prefix x_q). fold n.
    transitivity (nth (length (firstn n x) - 1) (firstn n x) 0%float).
    - apply last_nth.
    - rewrite length_firstn, Nat.min_l by lia. rewrite nth_firstn.
      destruct (Nat.ltb_spec (n - 1) n); [reflexivity | lia]. }
  rewrite Hlast.
  pose proof AppSpec.x_length as Hlen.
  pose proof x_real as Hreal. rewrite Forall_forall in Hreal.
  assert (Hq : is_real (Prim2SF x_q) = true)
    by (apply in_domain_real; [exact Hlo | apply lt_le, Hhi]).
  assert (H1 : is_real (Prim2SF (nth (n - 1) x 0%float)) = true)
    by (apply Hreal, nth_In; lia).
  assert (H2 : is_real (Prim2SF (nth n x 0%float)) = true)
    by (apply Hreal, nth_In; lia).
  pose proof (le_to_R _ _ H1 Hq Hl) as Hle.
  pose proof (lt_to_R _ _ Hq H2 Hr) as Hlt.
  pose proof (x_nth_near (n - 1) ltac:(lia)) as Ha.
  pose proof (x_nth_near n ltac:(lia)) as Hb.
  apply Rabs_le_bounds in Ha. apply Rabs_le_bounds in Hb.
  replace (INR n) with (INR (n - 1) + 1)%R in Hb
    by (rewrite <- S_INR; f_equal; lia).
  replace (/ 2 ^ 49)%R with (2 * / 2 ^ 50)%R by (simpl; field).
  lra.
Qed.

Lemma shaded_edge_within_step_witness :
  le (-4) 0 /\ lt 0 4
  /\ (0 <= to_R 0 - to_R (last (x_fill 0) 0%float) < 8 / 999 + / 2 ^ 49)%R.
Proof.
  assert (H1 : le (-4) 0) by reflexivity.
  assert (H2 : lt 0 4) by reflexivity.
  split; [exact H1|]. split; [exact H2|].
  exact (shaded_edge_within_step 0 H1 H2).
Defined.

End GridSpec.
